(** * useAudioRecorder: the recording hook of ReactAudioRecorder

    A shallow embedding of [src/hooks/useAudioRecorder.ts].

    The hook keeps four React state cells ([isRecording], [recordingTime],
    [timerInterval], [recordingBlob]) and talks to three services of the
    JavaScript platform: the interval timers ([setInterval] and
    [clearInterval]), the Cordova capture plugin
    ([navigator.device.capture.captureAudio]) and the file pipeline
    ([fetch], [FileReader], [Blob]).

    What the embedding keeps of React:
    - a state setter replaces (or, given a function, updates) its cell; the
      setters called by one handler are applied in the order of the calls;
    - the functions the hook returns are closures of one render: inside
      them [timerInterval] and [onNotAllowedOrFound] are the values of that
      render, not the current content of the cells.  They are therefore
      parameters of the embedded functions.  [startRecording],
      [stopRecording] and [_stopTimer] of one render see the same
      [timerInterval], since [useCallback] recreates each of them whenever
      [timerInterval] changes;
    - the two callbacks handed to [captureAudio] are created inside one call
      of [startRecording]; they keep the variables of the render that call
      came from for as long as the capture is in flight.

    [recordingTime] is a JavaScript number that only ever holds integers; it
    is modelled by [Z].  [time + 1] on [Z] is what the JavaScript number
    does as long as the result is at most 2^53 ([exactBound]); a statement
    about the value of the counter after an arbitrary number of firings
    carries that bound as a hypothesis. *)

From Stdlib Require Import ZArith List String Bool Lia.
From Stdlib Require Import Strings.Byte.
Import ListNotations.

Local Open Scope Z_scope.
Local Open Scope string_scope.

(** ** Platform values *)

(** A timer handle ([NodeJS.Timeout]); handles are issued in increasing order. *)
Definition Handle := nat.

(** In-flight [captureAudio] calls and [FileReader]s are told apart by a number. *)
Definition CaptureId := nat.
Definition ReaderId := nat.

(** The caller's [onNotAllowedOrFound] function.  It is code of the caller:
    the embedding records each of its invocations and gives it no effect of
    its own on the hook. *)
Definition Handler := nat.

Record CaptureError := mkCaptureError {
  code : Z;
  message : string
}.

Record MediaFile := mkMediaFile {
  name : string;
  fullPath : string
}.

Record Blob := mkBlob {
  blobBytes : list byte;
  blobType : string
}.

(** [new Blob(blobParts, { type })]: the parts one after the other. *)
Definition new_Blob (blobParts : list (list byte)) (type : string) : Blob :=
  {| blobBytes := List.concat blobParts; blobType := type |}.

(** [new Uint8Array(reader.result as ArrayBuffer)].  [reader.result] is
    [null] when the read failed, and [new Uint8Array(null)] is empty. *)
Definition new_Uint8Array (result : option (list byte)) : list byte :=
  match result with
  | Some buffer => buffer
  | None => []
  end.

(** ** The state cells of the hook *)

Record HookState := mkHookState {
  isRecording : bool;
  recordingTime : Z;
  timerInterval : option Handle;
  recordingBlob : option Blob
}.

(** The variables of a render that the callbacks of a capture close over. *)
Record Render := mkRender {
  r_timerInterval : option Handle;
  r_onNotAllowedOrFound : option Handler
}.

(** ** The world: the cells and the platform around them *)

Record World := mkWorld {
  hook : HookState;
  (** timers set with [setInterval] and not cleared since *)
  intervals : list Handle;
  nextHandle : Handle;
  (** [captureAudio] calls whose callbacks have not been invoked yet *)
  captures : list (CaptureId * Render);
  nextCapture : CaptureId;
  (** [FileReader]s whose [onloadend] has not fired yet, with the path fetched *)
  readers : list (ReaderId * string);
  nextReader : ReaderId;
  (** invocations of the caller's handler, oldest first *)
  handlerCalls : list (Handler * CaptureError);
  (** lines written by [console.log], oldest first *)
  console : list string
}.

(** [useState(false)], [useState(0)], [useState()], [useState()]. *)
Definition initialHook : HookState :=
  {| isRecording := false; recordingTime := 0;
     timerInterval := None; recordingBlob := None |}.

Definition initialWorld : World :=
  {| hook := initialHook;
     intervals := []; nextHandle := 0%nat;
     captures := []; nextCapture := 0%nat;
     readers := []; nextReader := 0%nat;
     handlerCalls := []; console := [] |}.

Definition with_hook (f : HookState -> HookState) (w : World) : World :=
  {| hook := f (hook w);
     intervals := intervals w; nextHandle := nextHandle w;
     captures := captures w; nextCapture := nextCapture w;
     readers := readers w; nextReader := nextReader w;
     handlerCalls := handlerCalls w; console := console w |}.

Definition with_intervals (l : list Handle) (n : Handle) (w : World) : World :=
  {| hook := hook w;
     intervals := l; nextHandle := n;
     captures := captures w; nextCapture := nextCapture w;
     readers := readers w; nextReader := nextReader w;
     handlerCalls := handlerCalls w; console := console w |}.

Definition with_captures (l : list (CaptureId * Render)) (n : CaptureId)
    (w : World) : World :=
  {| hook := hook w;
     intervals := intervals w; nextHandle := nextHandle w;
     captures := l; nextCapture := n;
     readers := readers w; nextReader := nextReader w;
     handlerCalls := handlerCalls w; console := console w |}.

Definition with_readers (l : list (ReaderId * string)) (n : ReaderId)
    (w : World) : World :=
  {| hook := hook w;
     intervals := intervals w; nextHandle := nextHandle w;
     captures := captures w; nextCapture := nextCapture w;
     readers := l; nextReader := n;
     handlerCalls := handlerCalls w; console := console w |}.

Definition with_handlerCalls (l : list (Handler * CaptureError)) (w : World) : World :=
  {| hook := hook w;
     intervals := intervals w; nextHandle := nextHandle w;
     captures := captures w; nextCapture := nextCapture w;
     readers := readers w; nextReader := nextReader w;
     handlerCalls := l; console := console w |}.

Definition with_console (l : list string) (w : World) : World :=
  {| hook := hook w;
     intervals := intervals w; nextHandle := nextHandle w;
     captures := captures w; nextCapture := nextCapture w;
     readers := readers w; nextReader := nextReader w;
     handlerCalls := handlerCalls w; console := l |}.

(** Tables keyed by a number; the newest entry of a key is found first. *)
Fixpoint assoc {A : Type} (k : nat) (l : list (nat * A)) : option A :=
  match l with
  | [] => None
  | (k', a) :: l' => if Nat.eqb k k' then Some a else assoc k l'
  end.

Definition unbind {A : Type} (k : nat) (l : list (nat * A)) : list (nat * A) :=
  filter (fun e => negb (Nat.eqb k (fst e))) l.

Definition live (h : Handle) (l : list Handle) : bool :=
  existsb (Nat.eqb h) l.

(** ** Handlers as computations

    A handler runs to completion on the world; it returns or it throws. *)

Inductive JsError :=
| TypeError (what : string).

Inductive Completion (A : Type) :=
| Normal (a : A) (w : World)
| Throw (e : JsError) (w : World).

Arguments Normal {A} a w.
Arguments Throw {A} e w.

Definition M (A : Type) : Type := World -> Completion A.

Definition ret {A : Type} (a : A) : M A := fun w => Normal a w.

Definition bind {A B : Type} (m : M A) (k : A -> M B) : M B :=
  fun w =>
    match m w with
    | Normal a w' => k a w'
    | Throw e w' => Throw e w'
    end.

Definition throw {A : Type} (e : JsError) : M A := fun w => Throw e w.

Definition modify (f : World -> World) : M unit := fun w => Normal tt (f w).

Notation "x <- m ;; k" := (bind m (fun x => k))
  (at level 61, m at next level, right associativity).
Notation "m ;; k" := (bind m (fun _ => k))
  (at level 61, right associativity).

(** The world a handler leaves behind, however it ended. *)
Definition world_after {A : Type} (c : Completion A) : World :=
  match c with
  | Normal _ w => w
  | Throw _ w => w
  end.

Definition returned {A : Type} (c : Completion A) : bool :=
  match c with
  | Normal _ _ => true
  | Throw _ _ => false
  end.

(** ** State setters *)

Definition setIsRecording (b : bool) : M unit :=
  modify (with_hook (fun s =>
    {| isRecording := b; recordingTime := recordingTime s;
       timerInterval := timerInterval s; recordingBlob := recordingBlob s |})).

(** [setRecordingTime] takes the updater form; [setRecordingTime(0)] is
    [setRecordingTime (fun _ => 0)]. *)
Definition setRecordingTime (f : Z -> Z) : M unit :=
  modify (with_hook (fun s =>
    {| isRecording := isRecording s; recordingTime := f (recordingTime s);
       timerInterval := timerInterval s; recordingBlob := recordingBlob s |})).

Definition setTimerInterval (t : option Handle) : M unit :=
  modify (with_hook (fun s =>
    {| isRecording := isRecording s; recordingTime := recordingTime s;
       timerInterval := t; recordingBlob := recordingBlob s |})).

Definition setRecordingBlob (b : option Blob) : M unit :=
  modify (with_hook (fun s =>
    {| isRecording := isRecording s; recordingTime := recordingTime s;
       timerInterval := timerInterval s; recordingBlob := b |})).

(** ** Platform services *)

(** [setInterval(callback, 1000)]: a fresh handle, now live.  Every interval
    of this program has the same callback, [interval_callback] below. *)
Definition setInterval : M Handle :=
  fun w => Normal (nextHandle w)
             (with_intervals (intervals w ++ [nextHandle w]) (S (nextHandle w)) w).

Definition clearInterval (h : Handle) : M unit :=
  modify (fun w =>
    with_intervals (filter (fun h' => negb (Nat.eqb h h')) (intervals w)) (nextHandle w) w).

(** [navigator.device.capture.captureAudio(onSuccess, onError)]: the capture
    is in flight; what is kept of the two callbacks is the render they close
    over. *)
Definition captureAudio (callbacks : Render) : M unit :=
  modify (fun w =>
    with_captures ((nextCapture w, callbacks) :: captures w) (S (nextCapture w)) w).

(** [fetch(path)] chained into [reader.readAsArrayBuffer]: a reader waits
    for the bytes of [path]. *)
Definition fetch_into_reader (path : string) : M unit :=
  modify (fun w =>
    with_readers ((nextReader w, path) :: readers w) (S (nextReader w)) w).

Definition console_log (line : string) : M unit :=
  modify (fun w => with_console (console w ++ [line]) w).

(** [f(err)] for the caller's function [f]: calling [undefined] throws. *)
Definition call (f : option Handler) (err : CaptureError) : M unit :=
  match f with
  | Some handler =>
      modify (fun w => with_handlerCalls (handlerCalls w ++ [(handler, err)]) w)
  | None => throw (TypeError "onNotAllowedOrFound is not a function")
  end.

(** [f?.(err)]: nothing is called when [f] is [undefined]. *)
Definition optional_call (f : option Handler) (err : CaptureError) : M unit :=
  match f with
  | None => ret tt
  | Some _ => call f err
  end.

(** ** The hook *)

(** The callback of the interval: [setRecordingTime((time) => time + 1)]. *)
Definition interval_callback : M unit :=
  setRecordingTime (fun time => time + 1).

Definition _startTimer : M unit :=
  interval <- setInterval ;;
  setTimerInterval (Some interval).

(** [timerInterval != null && clearInterval(timerInterval)], then
    [setTimerInterval(undefined)].  [timerInterval] is the render's. *)
Definition _stopTimer (timerInterval : option Handle) : M unit :=
  match timerInterval with
  | Some h => clearInterval h
  | None => ret tt
  end ;;
  setTimerInterval None.

(** [reader.onloadend]. *)
Definition reader_onloadend (result : option (list byte)) : M unit :=
  let blob := new_Blob [new_Uint8Array result] "audio/wav" in
  setRecordingBlob (Some blob).

(** The first callback given to [captureAudio]. *)
Definition onCaptureSuccess (timerInterval : option Handle)
    (files : list MediaFile) : M unit :=
  match nth_error files 0 with
  | None => throw (TypeError "Cannot read properties of undefined (reading 'fullPath')")
  | Some file =>
      let path := fullPath file in
      fetch_into_reader path ;;
      setIsRecording false ;;
      _stopTimer timerInterval ;;
      setRecordingTime (fun _ => 0)
  end.

(** The second callback given to [captureAudio]. *)
Definition onCaptureError (onNotAllowedOrFound : option Handler)
    (err : CaptureError) : M unit :=
  console_log (message err) ;;
  optional_call onNotAllowedOrFound err.

Definition startRecording (timerInterval : option Handle)
    (onNotAllowedOrFound : option Handler) : M unit :=
  match timerInterval with
  | Some _ => ret tt
  | None =>
      captureAudio
        {| r_timerInterval := timerInterval;
           r_onNotAllowedOrFound := onNotAllowedOrFound |} ;;
      setIsRecording true ;;
      _startTimer
  end.

Definition stopRecording (timerInterval : option Handle) : M unit :=
  _stopTimer timerInterval ;;
  setRecordingTime (fun _ => 0) ;;
  setIsRecording false.

(** ** The public contract, called from the current render *)

(** [start()]: [startRecording] of the render that shows the current cells;
    [onNotAllowedOrFound] is the argument the hook was rendered with. *)
Definition start (onNotAllowedOrFound : option Handler) (w : World) : World :=
  world_after (startRecording (timerInterval (hook w)) onNotAllowedOrFound w).

(** [stop()]: [stopRecording] of the render that shows the current cells. *)
Definition stop (w : World) : World :=
  world_after (stopRecording (timerInterval (hook w)) w).

(** ** Events and runs *)

Inductive Event :=
| CallStart (onNotAllowedOrFound : option Handler)
| CallStop
| IntervalFires (h : Handle)
| CaptureSucceeds (c : CaptureId) (files : list MediaFile)
| CaptureFails (c : CaptureId) (err : CaptureError)
| ReaderLoadEnd (r : ReaderId) (result : option (list byte)).

(** One event of the event loop; [None] when the platform cannot raise it
    (a cleared interval does not fire, a capture completes once, a reader
    loads once). *)
Definition step (e : Event) (w : World) : option World :=
  match e with
  | CallStart onNotAllowedOrFound => Some (start onNotAllowedOrFound w)
  | CallStop => Some (stop w)
  | IntervalFires h =>
      if live h (intervals w) then Some (world_after (interval_callback w))
      else None
  | CaptureSucceeds c files =>
      match assoc c (captures w) with
      | Some r =>
          Some (world_after
                  (onCaptureSuccess (r_timerInterval r) files
                     (with_captures (unbind c (captures w)) (nextCapture w) w)))
      | None => None
      end
  | CaptureFails c err =>
      match assoc c (captures w) with
      | Some r =>
          Some (world_after
                  (onCaptureError (r_onNotAllowedOrFound r) err
                     (with_captures (unbind c (captures w)) (nextCapture w) w)))
      | None => None
      end
  | ReaderLoadEnd r result =>
      match assoc r (readers w) with
      | Some _ =>
          Some (world_after
                  (reader_onloadend result
                     (with_readers (unbind r (readers w)) (nextReader w) w)))
      | None => None
      end
  end.

Fixpoint run (trace : list Event) (w : World) : option World :=
  match trace with
  | [] => Some w
  | e :: trace' =>
      match step e w with
      | Some w' => run trace' w'
      | None => None
      end
  end.

(** The worlds the hook can be in: those some run from the initial world ends in. *)
Definition reachable (w : World) : Prop :=
  exists trace, run trace initialWorld = Some w.

Definition is_success (e : Event) : bool :=
  match e with
  | CaptureSucceeds _ _ => true
  | _ => false
  end.

(** ** Sample data, for the concrete runs below *)

Definition sampleFile : MediaFile :=
  {| name := "recording.wav"; fullPath := "file:///storage/recording.wav" |}.

(** The first bytes of a WAV file: "RIFF". *)
Definition sampleBytes : list byte := [x52; x49; x46; x46].

Definition sampleError : CaptureError :=
  {| code := 3; message := "Canceled." |}.

Definition sampleHandler : Handler := 7%nat.

(** The world right after the first [start()], rendered with a handler. *)
Definition recordingWorld : World := start (Some sampleHandler) initialWorld.

(** A recording, the provider's success, then a new recording. *)
Definition restartTrace : list Event :=
  [CallStart None; CaptureSucceeds 0%nat [sampleFile]; CallStart None].

(** A recording, the provider's success, one more second, a new recording. *)
Definition lateRestartTrace : list Event :=
  [CallStart None; CaptureSucceeds 0%nat [sampleFile]; IntervalFires 0%nat;
   CallStart None].

(** A recording whose blob has arrived, then a new recording. *)
Definition secondTakeTrace : list Event :=
  [CallStart None; CaptureSucceeds 0%nat [sampleFile];
   ReaderLoadEnd 0%nat (Some sampleBytes); CallStart None].

(** ** The invariant of the reachable worlds *)

(** Every callback still in flight closes over a render without a timer
    (the guard of [startRecording] let that render through); the counter
    never goes below zero; it is zero whenever no interval is live; and a
    handle held by the cell is the handle of a live interval. *)
Definition invariant (w : World) : Prop :=
  (forall c r, In (c, r) (captures w) -> r_timerInterval r = None) /\
  0 <= recordingTime (hook w) /\
  (intervals w = [] -> recordingTime (hook w) = 0) /\
  (forall h, timerInterval (hook w) = Some h -> live h (intervals w) = true).

(** ** Further bookkeeping of the reachable worlds *)

(** The timer cell holds a handle. *)
Definition has_timer (s : HookState) : bool :=
  match timerInterval s with
  | Some _ => true
  | None => false
  end.

(** The timer cell holds the handle [h]. *)
Definition cell_holds (h : Handle) (s : HookState) : bool :=
  match timerInterval s with
  | Some h' => Nat.eqb h h'
  | None => false
  end.

(** [isRecording] is written together with the timer cell, and a handle in
    use is older than the next handle [setInterval] will issue. *)
Definition bookkeeping (w : World) : Prop :=
  isRecording (hook w) = has_timer (hook w) /\
  (forall h, In h (intervals w) -> (h < nextHandle w)%nat).

(** [n] recordings in a row, each started by [start()] and ended by the
    provider's success with the one file [file]; [c] numbers the first
    capture. *)
Fixpoint completedRecordings (file : MediaFile) (n : nat) (c : CaptureId)
    : list Event :=
  match n with
  | O => []
  | S n' =>
      CallStart None :: CaptureSucceeds c [file]
        :: completedRecordings file n' (S c)
  end.

(** The world after a first recording has delivered its blob. *)
Definition deliveredWorld : World :=
  Eval vm_compute in
    match run [CallStart None; CaptureSucceeds 0%nat [sampleFile];
               ReaderLoadEnd 0%nat (Some sampleBytes)] initialWorld with
    | Some w => w
    | None => initialWorld
    end.

(** The world after a first recording that the provider completed: the
    interval 0 is still live and the cell is empty. *)
Definition orphanTrace : list Event :=
  [CallStart None; CaptureSucceeds 0%nat [sampleFile]].

Definition orphanWorld : World :=
  Eval vm_compute in
    match run orphanTrace initialWorld with
    | Some w => w
    | None => initialWorld
    end.

(** ** Time, and what a run contains *)

(** Up to this value the integers are exact JavaScript numbers. *)
Definition exactBound : Z := 2 ^ 53.

(** One second passes: every live interval fires once (each was set with a
    period of 1000 ms). *)
Definition second_passes (w : World) : option World :=
  run (map IntervalFires (intervals w)) w.



Definition is_loadend (e : Event) : bool :=
  match e with
  | ReaderLoadEnd _ _ => true
  | _ => false
  end.

(** The event empties the timer cell: [stop()], or a success callback. *)
Definition empties_cell (e : Event) : bool :=
  match e with
  | CallStop => true
  | CaptureSucceeds _ _ => true
  | _ => false
  end.

(** The blob of the last read that ended in [trace]; [b] when none did. *)
Fixpoint last_read_from (b : option Blob) (trace : list Event) : option Blob :=
  match trace with
  | [] => b
  | ReaderLoadEnd _ result :: trace' =>
      last_read_from
        (Some {| blobBytes := new_Uint8Array result; blobType := "audio/wav" |})
        trace'
  | _ :: trace' => last_read_from b trace'
  end.


(** A second recording started while the first one, completed by the
    provider, left its interval running. *)
Definition restartWorld : World :=
  Eval vm_compute in
    match run restartTrace initialWorld with
    | Some w => w
    | None => initialWorld
    end.


(** A recording whose blob has arrived, and a new recording under way. *)
Definition secondTakeWorld : World :=
  Eval vm_compute in
    match run secondTakeTrace initialWorld with
    | Some w => w
    | None => initialWorld
    end.

(** A recording whose capture has failed. *)
Definition failedWorld : World :=
  Eval vm_compute in
    match step (CaptureFails 0%nat sampleError) recordingWorld with
    | Some w => w
    | None => initialWorld
    end.

(** * Properties *)

(** ** Tables and timers *)

Lemma assoc_In {A : Type} (k : nat) (l : list (nat * A)) (a : A) :
  assoc k l = Some a -> In (k, a) l.
Proof.
  induction l as [| [k' a'] l IH]; simpl; [discriminate |].
  destruct (Nat.eqb k k') eqn:E.
  - intros [= ->]. apply Nat.eqb_eq in E. subst. now left.
  - intros H. right. now apply IH.
Qed.

Lemma unbind_In {A : Type} (k : nat) (l : list (nat * A)) (e : nat * A) :
  In e (unbind k l) -> In e l.
Proof.
  unfold unbind. intros H. apply filter_In in H. tauto.
Qed.

Lemma assoc_unbind {A : Type} (k : nat) (l : list (nat * A)) :
  assoc k (unbind k l) = None.
Proof.
  induction l as [| [k' a'] l IH]; simpl; [reflexivity |].
  destruct (Nat.eqb k k') eqn:E; simpl; [assumption |].
  now rewrite E.
Qed.

Lemma live_cleared (h : Handle) (l : list Handle) :
  live h (filter (fun h' => negb (Nat.eqb h h')) l) = false.
Proof.
  induction l as [| h' l IH]; simpl; [reflexivity |].
  destruct (Nat.eqb h h') eqn:E; simpl; [assumption |].
  now rewrite E.
Qed.

Lemma live_app (h : Handle) (l1 l2 : list Handle) :
  live h (l1 ++ l2) = live h l1 || live h l2.
Proof. unfold live. apply existsb_app. Qed.

(** ** What each handler does to the world *)

Lemma interval_callback_spec (w : World) :
  interval_callback w =
  Normal tt (with_hook (fun s =>
    {| isRecording := isRecording s; recordingTime := recordingTime s + 1;
       timerInterval := timerInterval s; recordingBlob := recordingBlob s |}) w).
Proof. reflexivity. Qed.

(** The guard of [startRecording]. *)
Lemma start_with_timer (o : option Handler) (w : World) (h : Handle) :
  timerInterval (hook w) = Some h -> start o w = w.
Proof. unfold start, startRecording. intros ->. reflexivity. Qed.

Lemma start_without_timer (o : option Handler) (w : World) :
  timerInterval (hook w) = None ->
  start o w =
  {| hook := {| isRecording := true; recordingTime := recordingTime (hook w);
                timerInterval := Some (nextHandle w);
                recordingBlob := recordingBlob (hook w) |};
     intervals := intervals w ++ [nextHandle w]; nextHandle := S (nextHandle w);
     captures := (nextCapture w,
                  {| r_timerInterval := None; r_onNotAllowedOrFound := o |})
                 :: captures w;
     nextCapture := S (nextCapture w);
     readers := readers w; nextReader := nextReader w;
     handlerCalls := handlerCalls w; console := console w |}.
Proof. unfold start, startRecording. intros ->. reflexivity. Qed.

Lemma stop_spec (w : World) :
  stop w =
  {| hook := {| isRecording := false; recordingTime := 0;
                timerInterval := None;
                recordingBlob := recordingBlob (hook w) |};
     intervals := match timerInterval (hook w) with
                  | Some h => filter (fun h' => negb (Nat.eqb h h')) (intervals w)
                  | None => intervals w
                  end;
     nextHandle := nextHandle w;
     captures := captures w; nextCapture := nextCapture w;
     readers := readers w; nextReader := nextReader w;
     handlerCalls := handlerCalls w; console := console w |}.
Proof.
  unfold stop, stopRecording, _stopTimer.
  destruct (timerInterval (hook w)); reflexivity.
Qed.

(** The success callback of a capture started by a render without a timer:
    [_stopTimer] finds no handle to clear, whatever the cell holds by then. *)
Lemma onCaptureSuccess_stale (file : MediaFile) (more : list MediaFile) (w : World) :
  onCaptureSuccess None (file :: more) w =
  Normal tt
    {| hook := {| isRecording := false; recordingTime := 0;
                  timerInterval := None;
                  recordingBlob := recordingBlob (hook w) |};
       intervals := intervals w; nextHandle := nextHandle w;
       captures := captures w; nextCapture := nextCapture w;
       readers := (nextReader w, fullPath file) :: readers w;
       nextReader := S (nextReader w);
       handlerCalls := handlerCalls w; console := console w |}.
Proof. reflexivity. Qed.

Lemma onCaptureSuccess_hook (t : option Handle) (file : MediaFile)
    (more : list MediaFile) (w : World) :
  let w' := world_after (onCaptureSuccess t (file :: more) w) in
  returned (onCaptureSuccess t (file :: more) w) = true /\
  hook w' = {| isRecording := false; recordingTime := 0; timerInterval := None;
               recordingBlob := recordingBlob (hook w) |} /\
  readers w' = (nextReader w, fullPath file) :: readers w /\
  nextReader w' = S (nextReader w) /\
  captures w' = captures w.
Proof. destruct t; cbn; auto. Qed.

Lemma onCaptureSuccess_no_file (t : option Handle) (w : World) :
  returned (onCaptureSuccess t [] w) = false /\
  world_after (onCaptureSuccess t [] w) = w.
Proof. split; reflexivity. Qed.

(** ** The invariant holds in every reachable world *)

Lemma invariant_initial : invariant initialWorld.
Proof.
  unfold invariant. simpl.
  split; [intros c r [] | split; [lia | split; [reflexivity | discriminate]]].
Qed.

Lemma invariant_step (e : Event) (w w' : World) :
  invariant w -> step e w = Some w' -> invariant w'.
Proof.
  intros (Hcap & Hpos & Hzero & Hlive).
  destruct e as [o | | h | c files | c err | r result]; simpl.
  - intros [= <-].
    destruct (timerInterval (hook w)) as [h |] eqn:Ht.
    + rewrite (start_with_timer o w h Ht). unfold invariant. rewrite Ht. auto.
    + rewrite (start_without_timer o w Ht). unfold invariant. simpl.
      split; [| split; [| split]].
      * intros c r [[= <- <-] | Hin]; [reflexivity | eauto].
      * assumption.
      * intros Hnil. apply app_eq_nil in Hnil. destruct Hnil as [_ Hnil].
        discriminate.
      * intros h [= <-]. rewrite live_app. simpl.
        rewrite Nat.eqb_refl. apply orb_true_r.
  - intros [= <-]. rewrite stop_spec. unfold invariant. simpl.
    split; [| split; [| split]]; auto; try lia; discriminate.
  - destruct (live h (intervals w)) eqn:Hl; [| discriminate].
    intros [= <-]. unfold invariant. simpl.
    split; [| split; [| split]]; auto; try lia.
    intros Hnil. rewrite Hnil in Hl. discriminate.
  - destruct (assoc c (captures w)) as [r |] eqn:Hc; [| discriminate].
    intros [= <-].
    destruct files as [| file more].
    + unfold invariant. simpl. split; [| split; [| split]]; auto.
      intros c' r' Hin. apply unbind_In in Hin. eauto.
    + destruct (onCaptureSuccess_hook (r_timerInterval r) file more
                  (with_captures (unbind c (captures w)) (nextCapture w) w))
        as (_ & Hh & _ & _ & Hcs).
      unfold invariant. rewrite Hh, Hcs. simpl.
      split; [| split; [| split]]; auto; try lia; try discriminate.
      intros c' r' Hin. apply unbind_In in Hin. eauto.
  - destruct (assoc c (captures w)) as [r |] eqn:Hc; [| discriminate].
    intros [= <-].
    assert (Hsub : forall c' r', In (c', r') (unbind c (captures w)) ->
                                 r_timerInterval r' = None).
    { intros c' r' Hin. apply unbind_In in Hin. eauto. }
    destruct (r_onNotAllowedOrFound r); unfold invariant; simpl;
      (split; [| split; [| split]]); auto.
  - destruct (assoc r (readers w)) as [p |] eqn:Hr; [| discriminate].
    intros [= <-]. unfold invariant. simpl.
    split; [| split; [| split]]; auto.
Qed.

Lemma invariant_run (trace : list Event) (w w' : World) :
  invariant w -> run trace w = Some w' -> invariant w'.
Proof.
  revert w. induction trace as [| e trace IH]; simpl; intros w Hinv.
  - now intros [= <-].
  - destruct (step e w) as [w1 |] eqn:Hs; [| discriminate].
    apply IH. eapply invariant_step; eassumption.
Qed.

Lemma reachable_invariant (w : World) : reachable w -> invariant w.
Proof.
  intros [trace Hrun]. eapply invariant_run; [apply invariant_initial | eassumption].
Qed.

(** The success callback never clears an interval: its [_stopTimer] belongs
    to a render in which [timerInterval] was still undefined.  It empties
    the cell and leaves the timer running. *)
Lemma success_leaves_intervals (w w' : World) (c : CaptureId)
    (files : list MediaFile) :
  reachable w -> step (CaptureSucceeds c files) w = Some w' ->
  intervals w' = intervals w.
Proof.
  intros Hr. apply reachable_invariant in Hr as (Hcap & _). simpl.
  destruct (assoc c (captures w)) as [r |] eqn:Hc; [| discriminate].
  intros [= <-].
  rewrite (Hcap c r (assoc_In _ _ _ Hc)).
  destruct files; reflexivity.
Qed.


(** With no interval live, [start()] enters the recording state at zero. *)
Lemma start_from_rest (o : option Handler) (w : World) :
  reachable w -> intervals w = [] ->
  isRecording (hook (start o w)) = true /\ recordingTime (hook (start o w)) = 0.
Proof.
  intros Hr Hnil. apply reachable_invariant in Hr as (_ & _ & Hzero & Hlive).
  destruct (timerInterval (hook w)) as [h |] eqn:Ht.
  - specialize (Hlive h eq_refl). rewrite Hnil in Hlive. discriminate.
  - rewrite (start_without_timer o w Ht). simpl. auto.
Qed.

(** A second [start()] right after the first changes nothing. *)
Lemma start_twice (o o' : option Handler) (w : World) :
  timerInterval (hook w) = None -> start o' (start o w) = start o w.
Proof.
  intros Ht. apply (start_with_timer o' _ (nextHandle w)).
  rewrite (start_without_timer o w Ht). reflexivity.
Qed.

(** Seconds that pass between the two calls do not change that. *)
Lemma start_after_ticks (o : option Handler) (w w' : World) (h h' : Handle) :
  timerInterval (hook w) = Some h ->
  step (IntervalFires h') w = Some w' ->
  start o w' = w'.
Proof.
  simpl. intros Ht. destruct (live h' (intervals w)); [| discriminate].
  intros [= <-]. apply (start_with_timer o _ h). exact Ht.
Qed.

(** What the success callback of a pending capture does, in one step. *)
Lemma success_step (w : World) (c : CaptureId) (r : Render)
    (file : MediaFile) (more : list MediaFile) :
  assoc c (captures w) = Some r ->
  exists w1,
    step (CaptureSucceeds c (file :: more)) w = Some w1 /\
    hook w1 = {| isRecording := false; recordingTime := 0; timerInterval := None;
                 recordingBlob := recordingBlob (hook w) |} /\
    readers w1 = (nextReader w, fullPath file) :: readers w.
Proof.
  intros Hc. simpl. rewrite Hc. eexists. split; [reflexivity |].
  destruct (onCaptureSuccess_hook (r_timerInterval r) file more
              (with_captures (unbind c (captures w)) (nextCapture w) w))
    as (_ & Hh & Hrd & _).
  split; [exact Hh | exact Hrd].
Qed.

(** What [onloadend] of a waiting reader does, in one step. *)
Lemma loadend_step (w : World) (r : ReaderId) (path : string)
    (result : option (list byte)) :
  assoc r (readers w) = Some path ->
  exists w2,
    step (ReaderLoadEnd r result) w = Some w2 /\
    hook w2 = {| isRecording := isRecording (hook w);
                 recordingTime := recordingTime (hook w);
                 timerInterval := timerInterval (hook w);
                 recordingBlob :=
                   Some {| blobBytes := new_Uint8Array result;
                           blobType := "audio/wav" |} |}.
Proof.
  intros Hr. simpl. rewrite Hr. eexists. split; [reflexivity |].
  simpl. unfold new_Blob. simpl. now rewrite app_nil_r.
Qed.

(** The optional call is what keeps the failure callback from throwing:
    the plain call of an absent handler throws. *)
Lemma call_undefined_throws (err : CaptureError) (w : World) :
  returned (call None err w) = false.
Proof. reflexivity. Qed.

(** The guard reads the [timerInterval] of the render, not the cell: two
    calls of the [startRecording] of one render (no render in between) both
    pass it, and each sets an interval. *)
Lemma same_render_start_twice (o : option Handler) (w : World) :
  intervals
    (world_after (startRecording None o (world_after (startRecording None o w)))) =
  ((intervals w ++ [nextHandle w]) ++ [S (nextHandle w)])%list.
Proof. reflexivity. Qed.

(** ** The claims *)

(** C1: when the provider invokes the success callback of a capture with a
    file, the callback sets [isRecording] to false and [recordingTime] to 0
    and starts reading the path of the first file; when that read ends with
    bytes [bytes], [recordingBlob] is a blob of type audio/wav holding
    exactly [bytes], and [isRecording] and [recordingTime] are still false
    and 0. *)
Theorem success_yields_wav_blob_and_resets :
  forall (w : World) (c : CaptureId) (r : Render) (file : MediaFile)
         (more : list MediaFile) (bytes : list byte),
    assoc c (captures w) = Some r ->
    exists w1 w2,
      step (CaptureSucceeds c (file :: more)) w = Some w1 /\
      isRecording (hook w1) = false /\
      recordingTime (hook w1) = 0 /\
      assoc (nextReader w) (readers w1) = Some (fullPath file) /\
      step (ReaderLoadEnd (nextReader w) (Some bytes)) w1 = Some w2 /\
      recordingBlob (hook w2) =
        Some {| blobBytes := bytes; blobType := "audio/wav" |} /\
      isRecording (hook w2) = false /\
      recordingTime (hook w2) = 0.
Proof.
  intros w c r file more bytes Hc.
  destruct (success_step w c r file more Hc) as (w1 & Hs1 & Hh1 & Hrd1).
  assert (Hp : assoc (nextReader w) (readers w1) = Some (fullPath file)).
  { rewrite Hrd1. simpl. now rewrite Nat.eqb_refl. }
  destruct (loadend_step w1 (nextReader w) (fullPath file) (Some bytes) Hp)
    as (w2 & Hs2 & Hh2).
  exists w1, w2. rewrite Hh2, Hh1. simpl. repeat split; assumption.
Qed.

Lemma success_yields_wav_blob_and_resets_witness :
  exists w1 w2,
    step (CaptureSucceeds 0%nat [sampleFile]) recordingWorld = Some w1 /\
    isRecording (hook w1) = false /\
    recordingTime (hook w1) = 0 /\
    assoc (nextReader recordingWorld) (readers w1) = Some (fullPath sampleFile) /\
    step (ReaderLoadEnd (nextReader recordingWorld) (Some sampleBytes)) w1 = Some w2 /\
    recordingBlob (hook w2) =
      Some {| blobBytes := sampleBytes; blobType := "audio/wav" |} /\
    isRecording (hook w2) = false /\
    recordingTime (hook w2) = 0.
Proof.
  apply (success_yields_wav_blob_and_resets recordingWorld 0%nat
           {| r_timerInterval := None;
              r_onNotAllowedOrFound := Some sampleHandler |}
           sampleFile [] sampleBytes).
  reflexivity.
Defined.

(** In every world, whatever [recordingTime] was, [stop()] empties the
    timer cell, sets [recordingTime] to 0 and [isRecording] to false, and
    clears the interval whose handle the cell held; it clears no other. *)
Theorem stop_resets_session :
  forall w : World,
    timerInterval (hook (stop w)) = None /\
    recordingTime (hook (stop w)) = 0 /\
    isRecording (hook (stop w)) = false /\
    match timerInterval (hook w) with
    | Some h => live h (intervals (stop w)) = false
    | None => intervals (stop w) = intervals w
    end.
Proof.
  intros w. rewrite stop_spec. simpl.
  repeat split.
  destruct (timerInterval (hook w)) as [h |]; [apply live_cleared | reflexivity].
Qed.

(** C9: [stop()] leaves [recordingBlob] as it was; of the cells it writes
    only [timerInterval], [recordingTime] and [isRecording], and outside
    the cells it touches only the interval table: captures in flight,
    waiting readers, the handler's invocations and the console are as
    before. *)
Theorem stop_keeps_blob :
  forall w : World,
    recordingBlob (hook (stop w)) = recordingBlob (hook w) /\
    captures (stop w) = captures w /\
    nextCapture (stop w) = nextCapture w /\
    readers (stop w) = readers w /\
    nextReader (stop w) = nextReader w /\
    handlerCalls (stop w) = handlerCalls w /\
    console (stop w) = console w /\
    nextHandle (stop w) = nextHandle w.
Proof.
  intros w. rewrite stop_spec. simpl. repeat split.
Qed.

(** C7: when a capture fails whose callbacks close over a handler, the
    handler is invoked exactly once, with the provider's error, and the
    cells and the interval table are left as they were. *)
Theorem failure_reports_to_handler_once :
  forall (w : World) (c : CaptureId) (r : Render) (handler : Handler)
         (err : CaptureError),
    assoc c (captures w) = Some r ->
    r_onNotAllowedOrFound r = Some handler ->
    exists w',
      step (CaptureFails c err) w = Some w' /\
      handlerCalls w' = (handlerCalls w ++ [(handler, err)])%list /\
      hook w' = hook w /\
      intervals w' = intervals w.
Proof.
  intros w c r handler err Hc Hh.
  simpl. rewrite Hc, Hh. eexists. split; [reflexivity |].
  simpl. repeat split.
Qed.

Lemma failure_reports_to_handler_once_witness :
  exists w',
    step (CaptureFails 0%nat sampleError) recordingWorld = Some w' /\
    handlerCalls w' = (handlerCalls recordingWorld ++ [(sampleHandler, sampleError)])%list /\
    hook w' = hook recordingWorld /\
    intervals w' = intervals recordingWorld.
Proof.
  apply (failure_reports_to_handler_once recordingWorld 0%nat
           {| r_timerInterval := None;
              r_onNotAllowedOrFound := Some sampleHandler |}
           sampleHandler sampleError).
  - reflexivity.
  - reflexivity.
Defined.

(** C10: with [onNotAllowedOrFound] omitted, the failure callback returns
    without throwing; it writes the message to the console and leaves the
    cells, the interval table, the captures in flight and the record of
    handler invocations as they were. *)
Theorem failure_without_handler_returns :
  forall (err : CaptureError) (w : World),
    returned (onCaptureError None err w) = true /\
    hook (world_after (onCaptureError None err w)) = hook w /\
    intervals (world_after (onCaptureError None err w)) = intervals w /\
    captures (world_after (onCaptureError None err w)) = captures w /\
    handlerCalls (world_after (onCaptureError None err w)) = handlerCalls w /\
    console (world_after (onCaptureError None err w)) = (console w ++ [message err])%list.
Proof.
  intros err w. cbn. repeat split.
Qed.

(** Until a success callback has run, no reader waits and no blob is stored. *)
Lemma no_success_no_blob (trace : list Event) :
  forall w w' : World,
    run trace w = Some w' ->
    existsb is_success trace = false ->
    readers w = [] ->
    recordingBlob (hook w) = None ->
    recordingBlob (hook w') = None /\ readers w' = [].
Proof.
  induction trace as [| e trace IH]; simpl; intros w w' Hrun Hno Hrd Hb.
  - injection Hrun as <-. auto.
  - apply orb_false_elim in Hno as [He Hno].
    destruct (step e w) as [w1 |] eqn:Hs; [| discriminate].
    apply (IH w1 w' Hrun Hno).
    + destruct e as [o | | h | c files | c err | r result]; simpl in Hs.
      * injection Hs as <-.
        destruct (timerInterval (hook w)) as [h |] eqn:Ht.
        -- now rewrite (start_with_timer o w h Ht).
        -- now rewrite (start_without_timer o w Ht).
      * injection Hs as <-. now rewrite stop_spec.
      * destruct (live h (intervals w)); [| discriminate].
        now injection Hs as <-.
      * discriminate He.
      * destruct (assoc c (captures w)) as [r |]; [| discriminate].
        injection Hs as <-. now destruct (r_onNotAllowedOrFound r).
      * rewrite Hrd in Hs. discriminate Hs.
    + destruct e as [o | | h | c files | c err | r result]; simpl in Hs.
      * injection Hs as <-.
        destruct (timerInterval (hook w)) as [h |] eqn:Ht.
        -- now rewrite (start_with_timer o w h Ht).
        -- now rewrite (start_without_timer o w Ht).
      * injection Hs as <-. now rewrite stop_spec.
      * destruct (live h (intervals w)); [| discriminate].
        now injection Hs as <-.
      * discriminate He.
      * destruct (assoc c (captures w)) as [r |]; [| discriminate].
        injection Hs as <-. now destruct (r_onNotAllowedOrFound r).
      * rewrite Hrd in Hs. discriminate Hs.
Qed.

(** C6, as the claim states it, fails: after a first recording has delivered
    its blob, a new [start()] enters the recording state with that blob
    still in [recordingBlob]. *)
Lemma blob_defined_while_recording :
  ~ (forall w : World,
       reachable w -> isRecording (hook w) = true ->
       recordingBlob (hook w) = None).
Proof.
  intros H.
  destruct (run secondTakeTrace initialWorld) as [w |] eqn:E;
    [| discriminate E].
  specialize (H w (ex_intro _ secondTakeTrace E)).
  vm_compute in E. injection E as <-.
  specialize (H eq_refl). discriminate H.
Qed.

(** C2, on the failing run: the provider's success empties the timer cell
    but leaves the interval of the first recording running; a second later
    the hook is idle with no handle in the cell and [recordingTime] is 1,
    and [start()] enters the recording state with [recordingTime] still 1. *)
Theorem start_after_success_resumes_count :
  exists w0 w1 : World,
    run [CallStart None; CaptureSucceeds 0%nat [sampleFile]; IntervalFires 0%nat]
        initialWorld = Some w0 /\
    isRecording (hook w0) = false /\
    timerInterval (hook w0) = None /\
    intervals w0 = [0%nat] /\
    run lateRestartTrace initialWorld = Some w1 /\
    w1 = start None w0 /\
    isRecording (hook w1) = true /\
    recordingTime (hook w1) = 1.
Proof.
  let r := eval vm_compute in
    (run [CallStart None; CaptureSucceeds 0%nat [sampleFile]; IntervalFires 0%nat]
         initialWorld) in
  match r with Some ?w => exists w end.
  let r := eval vm_compute in (run lateRestartTrace initialWorld) in
  match r with Some ?w => exists w end.
  repeat split.
Qed.

(** C3, on the failing run: after a recording that the provider completed,
    the next [start()] passes the guard and sets a second interval while
    the first is still live; both fire from then on. *)
Theorem success_then_start_runs_two_timers :
  exists w w' : World,
    run restartTrace initialWorld = Some w /\
    intervals w = [0%nat; 1%nat] /\
    timerInterval (hook w) = Some 1%nat /\
    run [IntervalFires 0%nat; IntervalFires 1%nat] w = Some w' /\
    recordingTime (hook w') = 2.
Proof.
  let r := eval vm_compute in (run restartTrace initialWorld) in
  match r with Some ?w => exists w end.
  let r := eval vm_compute in
    (run (restartTrace ++ [IntervalFires 0%nat; IntervalFires 1%nat])
         initialWorld) in
  match r with Some ?w => exists w end.
  repeat split.
Qed.

(** * Further properties of the hook *)

(** ** Bookkeeping holds in every reachable world *)

Lemma live_In (h : Handle) (l : list Handle) :
  live h l = true <-> In h l.
Proof.
  unfold live. rewrite existsb_exists. split.
  - intros (x & Hin & Heq). apply Nat.eqb_eq in Heq. now subst.
  - intros Hin. exists h. split; [assumption | apply Nat.eqb_refl].
Qed.

Lemma live_kept (h h' : Handle) (l : list Handle) :
  Nat.eqb h' h = false ->
  live h (filter (fun x => negb (Nat.eqb h' x)) l) = live h l.
Proof.
  intros Hne. induction l as [| x l IH]; simpl; [reflexivity |].
  destruct (Nat.eqb h' x) eqn:E; simpl.
  - apply Nat.eqb_eq in E. subst x.
    rewrite Nat.eqb_sym, Hne. simpl. exact IH.
  - now rewrite IH.
Qed.


Lemma bookkeeping_initial : bookkeeping initialWorld.
Proof. split; [reflexivity | intros h []]. Qed.

Lemma bookkeeping_step (e : Event) (w w' : World) :
  bookkeeping w -> step e w = Some w' -> bookkeeping w'.
Proof.
  unfold bookkeeping, has_timer. intros (Hflag & Hfresh).
  destruct e as [o | | h | c files | c err | r result]; simpl.
  - intros [= <-].
    destruct (timerInterval (hook w)) as [h |] eqn:Ht.
    + rewrite (start_with_timer o w h Ht). rewrite Ht. auto.
    + rewrite (start_without_timer o w Ht). simpl. split; [reflexivity |].
      intros h Hin. apply in_app_or in Hin as [Hin | [<- | []]].
      * apply Hfresh in Hin. lia.
      * lia.
  - intros [= <-]. rewrite stop_spec. simpl. split; [reflexivity |].
    destruct (timerInterval (hook w)) as [h0 |]; [| assumption].
    intros h Hin. apply filter_In in Hin. now apply Hfresh.
  - destruct (live h (intervals w)); [| discriminate].
    intros [= <-]. simpl. auto.
  - destruct (assoc c (captures w)) as [r |]; [| discriminate].
    intros [= <-]. destruct files as [| file more]; [simpl; auto |].
    destruct (r_timerInterval r) as [h0 |]; simpl; (split; [reflexivity |]);
      [| assumption].
    intros h Hin. apply filter_In in Hin. now apply Hfresh.
  - destruct (assoc c (captures w)) as [r |]; [| discriminate].
    intros [= <-]. destruct (r_onNotAllowedOrFound r); simpl; auto.
  - destruct (assoc r (readers w)); [| discriminate].
    intros [= <-]. simpl. auto.
Qed.

Lemma bookkeeping_run (trace : list Event) (w w' : World) :
  bookkeeping w -> run trace w = Some w' -> bookkeeping w'.
Proof.
  revert w. induction trace as [| e trace IH]; simpl; intros w Hb.
  - now intros [= <-].
  - destruct (step e w) as [w1 |] eqn:Hs; [| discriminate].
    apply IH. eapply bookkeeping_step; eassumption.
Qed.

(** X1: in every reachable world [isRecording] is true exactly when the
    timer cell holds a handle, so [start()] changes nothing exactly while
    [isRecording] is true and starts a recording otherwise. *)
Theorem recording_flag_tracks_timer_cell :
  forall (trace : list Event) (w : World) (o : option Handler),
    run trace initialWorld = Some w ->
    isRecording (hook w) = has_timer (hook w) /\
    if isRecording (hook w)
    then start o w = w
    else isRecording (hook (start o w)) = true /\
         timerInterval (hook (start o w)) = Some (nextHandle w).
Proof.
  intros trace w o Hrun.
  destruct (bookkeeping_run trace initialWorld w bookkeeping_initial Hrun)
    as (Hflag & _).
  split; [exact Hflag |].
  rewrite Hflag. unfold has_timer.
  destruct (timerInterval (hook w)) as [h |] eqn:Ht.
  - apply (start_with_timer o w h Ht).
  - rewrite (start_without_timer o w Ht). simpl. auto.
Qed.

Lemma recording_flag_tracks_timer_cell_witness :
  isRecording (hook recordingWorld) = has_timer (hook recordingWorld) /\
  if isRecording (hook recordingWorld)
  then start None recordingWorld = recordingWorld
  else isRecording (hook (start None recordingWorld)) = true /\
       timerInterval (hook (start None recordingWorld)) =
         Some (nextHandle recordingWorld).
Proof.
  apply (recording_flag_tracks_timer_cell [CallStart (Some sampleHandler)]
           recordingWorld None).
  reflexivity.
Defined.

(** ** The interval of a recording that the provider completed *)

(** X2: in every reachable world the success callback of a capture clears
    no interval, whatever the cell holds: the interval table is as before,
    and when a file came back the cell is empty although the interval it
    named is still live. *)
Theorem success_callback_never_clears_interval :
  forall (trace : list Event) (w w' : World) (c : CaptureId)
         (files : list MediaFile),
    run trace initialWorld = Some w ->
    step (CaptureSucceeds c files) w = Some w' ->
    intervals w' = intervals w /\
    match files with
    | [] => hook w' = hook w
    | _ :: _ =>
        timerInterval (hook w') = None /\
        match timerInterval (hook w) with
        | Some h => live h (intervals w') = true
        | None => True
        end
    end.
Proof.
  intros trace w w' c files Hrun Hstep.
  assert (Hr : reachable w) by (now exists trace).
  pose proof (success_leaves_intervals w w' c files Hr Hstep) as Hsame.
  split; [exact Hsame |].
  destruct (reachable_invariant w Hr) as (Hcap & _ & _ & Hlive).
  simpl in Hstep.
  destruct (assoc c (captures w)) as [r |] eqn:Hc; [| discriminate].
  injection Hstep as <-.
  destruct files as [| file more]; [reflexivity |].
  destruct (onCaptureSuccess_hook (r_timerInterval r) file more
              (with_captures (unbind c (captures w)) (nextCapture w) w))
    as (_ & Hh & _).
  rewrite Hh. simpl. split; [reflexivity |].
  destruct (timerInterval (hook w)) as [h |]; [| exact I].
  rewrite Hsame. now apply Hlive.
Qed.

Lemma success_callback_never_clears_interval_witness :
  intervals orphanWorld = intervals recordingWorld /\
  timerInterval (hook orphanWorld) = None /\
  match timerInterval (hook recordingWorld) with
  | Some h => live h (intervals orphanWorld) = true
  | None => True
  end.
Proof.
  apply (success_callback_never_clears_interval
           [CallStart (Some sampleHandler)] recordingWorld orphanWorld
           0%nat [sampleFile]).
  - reflexivity.
  - reflexivity.
Defined.

Lemma orphan_step (e : Event) (w w' : World) (h : Handle) :
  invariant w -> bookkeeping w ->
  live h (intervals w) = true -> cell_holds h (hook w) = false ->
  step e w = Some w' ->
  live h (intervals w') = true /\ cell_holds h (hook w') = false.
Proof.
  intros (Hcap & _) (_ & Hfresh) Hl Hcell.
  unfold cell_holds in *.
  destruct e as [o | | h1 | c files | c err | r result]; simpl.
  - intros [= <-].
    destruct (timerInterval (hook w)) as [h0 |] eqn:Ht.
    + rewrite (start_with_timer o w h0 Ht). rewrite Ht. auto.
    + rewrite (start_without_timer o w Ht). simpl. split.
      * rewrite live_app, Hl. reflexivity.
      * apply Nat.eqb_neq. apply live_In in Hl. apply Hfresh in Hl. lia.
  - intros [= <-]. rewrite stop_spec. simpl. split; [| reflexivity].
    destruct (timerInterval (hook w)) as [h0 |]; [| exact Hl].
    rewrite live_kept; [exact Hl |]. now rewrite Nat.eqb_sym.
  - destruct (live h1 (intervals w)); [| discriminate].
    intros [= <-]. simpl. auto.
  - destruct (assoc c (captures w)) as [r |] eqn:Hc; [| discriminate].
    intros [= <-]. rewrite (Hcap c r (assoc_In _ _ _ Hc)).
    destruct files as [| file more]; simpl; auto.
  - destruct (assoc c (captures w)) as [r |]; [| discriminate].
    intros [= <-]. destruct (r_onNotAllowedOrFound r); simpl; auto.
  - destruct (assoc r (readers w)); [| discriminate].
    intros [= <-]. simpl. auto.
Qed.

Lemma orphan_run (trace : list Event) :
  forall (w w' : World) (h : Handle),
    invariant w -> bookkeeping w ->
    live h (intervals w) = true -> cell_holds h (hook w) = false ->
    run trace w = Some w' ->
    live h (intervals w') = true /\ cell_holds h (hook w') = false.
Proof.
  induction trace as [| e trace IH]; simpl; intros w w' h Hinv Hbk Hl Hcell.
  - intros [= <-]. auto.
  - destruct (step e w) as [w1 |] eqn:Hs; [| discriminate].
    destruct (orphan_step e w w1 h Hinv Hbk Hl Hcell Hs) as (Hl1 & Hcell1).
    apply IH; auto.
    + eapply invariant_step; eassumption.
    + eapply bookkeeping_step; eassumption.
Qed.

(** X3: an interval that is live while the cell does not hold its handle
    is out of reach of the current render: from such a reachable world,
    after any run of [start()] and [stop()] called from the current render,
    timer firings, capture completions and file reads, the interval is
    still live, the cell does not hold its handle, and one more [stop()]
    leaves it live.  Only a [stopRecording] kept from a render whose
    [timerInterval] was that handle still clears it. *)
Theorem orphaned_interval_stays_live :
  forall (before after : list Event) (w w' : World) (h : Handle),
    run before initialWorld = Some w ->
    live h (intervals w) = true ->
    cell_holds h (hook w) = false ->
    run after w = Some w' ->
    live h (intervals w') = true /\
    cell_holds h (hook w') = false /\
    live h (intervals (stop w')) = true /\
    live h (intervals (world_after (stopRecording (Some h) w'))) = false.
Proof.
  intros before after w w' h Hrun Hl Hcell Hafter.
  assert (Hinv : invariant w) by (apply reachable_invariant; now exists before).
  pose proof (bookkeeping_run before initialWorld w bookkeeping_initial Hrun)
    as Hbk.
  destruct (orphan_run after w w' h Hinv Hbk Hl Hcell Hafter) as (Hl' & Hcell').
  split; [exact Hl' |]. split; [exact Hcell' |]. split.
  - assert (Hinv' : invariant w') by (eapply invariant_run; eassumption).
    assert (Hbk' : bookkeeping w') by (eapply bookkeeping_run; eassumption).
    apply (orphan_step CallStop w' (stop w') h Hinv' Hbk' Hl' Hcell' eq_refl).
  - cbn. apply live_cleared.
Qed.

Lemma orphaned_interval_stays_live_witness :
  live 0%nat (intervals (stop (start None orphanWorld))) = true /\
  cell_holds 0%nat (hook (stop (start None orphanWorld))) = false /\
  live 0%nat (intervals (stop (stop (start None orphanWorld)))) = true /\
  live 0%nat
    (intervals
       (world_after (stopRecording (Some 0%nat) (stop (start None orphanWorld)))))
    = false.
Proof.
  apply (orphaned_interval_stays_live orphanTrace [CallStart None; CallStop]
           orphanWorld (stop (start None orphanWorld)) 0%nat).
  - reflexivity.
  - reflexivity.
  - reflexivity.
  - reflexivity.
Defined.

Lemma completed_recording_adds_interval (file : MediaFile) (w : World) :
  timerInterval (hook w) = None ->
  exists w',
    run [CallStart None; CaptureSucceeds (nextCapture w) [file]] w = Some w' /\
    intervals w' = (intervals w ++ [nextHandle w])%list /\
    timerInterval (hook w') = None /\
    isRecording (hook w') = false /\
    nextCapture w' = S (nextCapture w).
Proof.
  intros Ht. simpl. rewrite (start_without_timer None w Ht). simpl.
  rewrite Nat.eqb_refl. eexists. split; [reflexivity |].
  simpl. auto.
Qed.

Lemma completed_recordings_from (file : MediaFile) (n : nat) :
  forall w : World,
    timerInterval (hook w) = None ->
    isRecording (hook w) = false ->
    exists w',
      run (completedRecordings file n (nextCapture w)) w = Some w' /\
      List.length (intervals w') = (List.length (intervals w) + n)%nat /\
      timerInterval (hook w') = None /\
      isRecording (hook w') = false.
Proof.
  induction n as [| n IH]; intros w Ht Hrec.
  - exists w. simpl. repeat split; auto.
  - destruct (completed_recording_adds_interval file w Ht)
      as (w1 & Hrun1 & Hiv1 & Ht1 & Hrec1 & Hnc1).
    destruct (IH w1 Ht1 Hrec1) as (w2 & Hrun2 & Hlen2 & Ht2 & Hrec2).
    exists w2. repeat split; auto.
    + simpl in Hrun1. simpl.
      destruct (assoc (nextCapture w) (captures (start None w))) as [r |];
        [| discriminate].
      injection Hrun1 as ->. rewrite <- Hnc1. exact Hrun2.
    + rewrite Hlen2, Hiv1, length_app. simpl. lia.
Qed.

(** X4: every recording that the provider completes leaves its interval
    running: after [n] recordings in a row, each started by [start()] and
    completed by the provider with a file, the hook is idle with an empty
    cell and [n] intervals are live. *)
Theorem completed_recordings_pile_up_intervals :
  forall (file : MediaFile) (n : nat),
    exists w : World,
      run (completedRecordings file n 0%nat) initialWorld = Some w /\
      List.length (intervals w) = n /\
      timerInterval (hook w) = None /\
      isRecording (hook w) = false.
Proof.
  intros file n.
  destruct (completed_recordings_from file n initialWorld eq_refl eq_refl)
    as (w & Hrun & Hlen & Ht & Hrec).
  exists w. repeat split; auto.
Qed.

(** ** Seconds add up *)

Lemma ticks_run (n : nat) :
  forall (w : World) (h : Handle),
    live h (intervals w) = true ->
    run (repeat (IntervalFires h) n) w =
    Some (with_hook (fun s =>
            {| isRecording := isRecording s;
               recordingTime := recordingTime s + Z.of_nat n;
               timerInterval := timerInterval s;
               recordingBlob := recordingBlob s |}) w).
Proof.
  induction n as [| n IH]; intros w h Hl.
  - cbn [repeat run]. f_equal.
    destruct w as [[i t c b] ? ? ? ? ? ? ? ?]. unfold with_hook. cbn.
    now rewrite Z.add_0_r.
  - cbn [repeat run step]. rewrite Hl.
    rewrite IH by exact Hl.
    unfold with_hook. cbn. do 3 f_equal. lia.
Qed.

(** X5: as long as the counter stays within the exact range of a
    JavaScript number (it starts at 0 or above and ends at 2^53 or below),
    [n] firings of a live interval add exactly [n] to [recordingTime] and
    change nothing else. *)
Theorem seconds_accumulate :
  forall (n : nat) (w : World) (h : Handle),
    live h (intervals w) = true ->
    0 <= recordingTime (hook w) ->
    recordingTime (hook w) + Z.of_nat n <= exactBound ->
    exists w',
      run (repeat (IntervalFires h) n) w = Some w' /\
      recordingTime (hook w') = recordingTime (hook w) + Z.of_nat n /\
      0 <= recordingTime (hook w') <= exactBound /\
      isRecording (hook w') = isRecording (hook w) /\
      timerInterval (hook w') = timerInterval (hook w) /\
      recordingBlob (hook w') = recordingBlob (hook w) /\
      intervals w' = intervals w /\
      captures w' = captures w /\
      readers w' = readers w.
Proof.
  intros n w h Hl Hlo Hhi. rewrite (ticks_run n w h Hl).
  eexists. split; [reflexivity |]. simpl. repeat split; lia.
Qed.

Lemma seconds_accumulate_witness :
  exists w',
    run (repeat (IntervalFires 0%nat) 90) recordingWorld = Some w' /\
    recordingTime (hook w') = recordingTime (hook recordingWorld) + Z.of_nat 90 /\
    0 <= recordingTime (hook w') <= exactBound /\
    isRecording (hook w') = isRecording (hook recordingWorld) /\
    timerInterval (hook w') = timerInterval (hook recordingWorld) /\
    recordingBlob (hook w') = recordingBlob (hook recordingWorld) /\
    intervals w' = intervals recordingWorld /\
    captures w' = captures recordingWorld /\
    readers w' = readers recordingWorld.
Proof.
  apply (seconds_accumulate 90 recordingWorld 0%nat).
  - reflexivity.
  - simpl. lia.
  - unfold exactBound. simpl. lia.
Defined.

(** ** Edge cases of the two completions *)

(** X6: when the provider reports success with an empty list of files, the
    success callback throws while reading [fullPath] of [files[0]], before
    any setter runs: the cells, the intervals and the readers are as
    before, so a recording in progress stays in progress. *)
Theorem success_without_files_throws :
  forall (w : World) (c : CaptureId) (r : Render),
    assoc c (captures w) = Some r ->
    returned (onCaptureSuccess (r_timerInterval r) [] w) = false /\
    exists w',
      step (CaptureSucceeds c []) w = Some w' /\
      hook w' = hook w /\
      intervals w' = intervals w /\
      readers w' = readers w /\
      assoc c (captures w') = None.
Proof.
  intros w c r Hc. split; [reflexivity |].
  simpl. rewrite Hc. eexists. split; [reflexivity |].
  simpl. repeat split. apply assoc_unbind.
Qed.

Lemma success_without_files_throws_witness :
  returned (onCaptureSuccess None [] recordingWorld) = false /\
  exists w',
    step (CaptureSucceeds 0%nat []) recordingWorld = Some w' /\
    hook w' = hook recordingWorld /\
    intervals w' = intervals recordingWorld /\
    readers w' = readers recordingWorld /\
    assoc 0%nat (captures w') = None.
Proof.
  apply (success_without_files_throws recordingWorld 0%nat
           {| r_timerInterval := None;
              r_onNotAllowedOrFound := Some sampleHandler |}).
  reflexivity.
Defined.

(** X7: when a read ends without a result ([reader.result] is null),
    [onloadend] still stores a blob: [recordingBlob] becomes an empty blob
    of type audio/wav, and the other cells are as before. *)
Theorem failed_read_stores_empty_blob :
  forall (w : World) (r : ReaderId) (path : string),
    assoc r (readers w) = Some path ->
    exists w',
      step (ReaderLoadEnd r None) w = Some w' /\
      recordingBlob (hook w') =
        Some {| blobBytes := []; blobType := "audio/wav" |} /\
      isRecording (hook w') = isRecording (hook w) /\
      recordingTime (hook w') = recordingTime (hook w) /\
      timerInterval (hook w') = timerInterval (hook w).
Proof.
  intros w r path Hr.
  destruct (loadend_step w r path None Hr) as (w' & Hs & Hh).
  exists w'. rewrite Hh. simpl. repeat split. exact Hs.
Qed.

Lemma failed_read_stores_empty_blob_witness :
  exists w',
    step (ReaderLoadEnd 0%nat None) orphanWorld = Some w' /\
    recordingBlob (hook w') =
      Some {| blobBytes := []; blobType := "audio/wav" |} /\
    isRecording (hook w') = isRecording (hook orphanWorld) /\
    recordingTime (hook w') = recordingTime (hook orphanWorld) /\
    timerInterval (hook w') = timerInterval (hook orphanWorld).
Proof.
  apply (failed_read_stores_empty_blob orphanWorld 0%nat (fullPath sampleFile)).
  reflexivity.
Defined.

(** ** The blob *)

(** Only [onloadend] writes [recordingBlob], and it always writes a blob. *)
Lemma blob_after_step (e : Event) (w w' : World) :
  step e w = Some w' ->
  match e with
  | ReaderLoadEnd _ result =>
      recordingBlob (hook w') =
      Some {| blobBytes := new_Uint8Array result; blobType := "audio/wav" |}
  | _ => recordingBlob (hook w') = recordingBlob (hook w)
  end.
Proof.
  destruct e as [o | | h | c files | c err | r result]; simpl.
  - intros [= <-].
    destruct (timerInterval (hook w)) as [h |] eqn:Ht.
    + now rewrite (start_with_timer o w h Ht).
    + now rewrite (start_without_timer o w Ht).
  - intros [= <-]. now rewrite stop_spec.
  - destruct (live h (intervals w)); [| discriminate]. now intros [= <-].
  - destruct (assoc c (captures w)) as [r |]; [| discriminate].
    intros [= <-]. destruct files as [| file more]; [reflexivity |].
    now destruct (r_timerInterval r).
  - destruct (assoc c (captures w)) as [r |]; [| discriminate].
    intros [= <-]. now destruct (r_onNotAllowedOrFound r).
  - destruct (assoc r (readers w)); [| discriminate].
    intros [= <-]. simpl. unfold new_Blob. simpl. now rewrite app_nil_r.
Qed.

(** X8: no operation of the hook resets [recordingBlob]: once it holds a
    blob it holds one after every later run of events, and it holds the
    same blob for as long as no read ends. *)
Theorem blob_never_cleared :
  forall (trace : list Event) (w w' : World) (b : Blob),
    recordingBlob (hook w) = Some b ->
    run trace w = Some w' ->
    exists b',
      recordingBlob (hook w') = Some b' /\
      (existsb (fun e => match e with ReaderLoadEnd _ _ => true | _ => false end)
               trace = false -> b' = b).
Proof.
  induction trace as [| e trace IH]; simpl; intros w w' b Hb Hrun.
  - injection Hrun as <-. exists b. auto.
  - destruct (step e w) as [w1 |] eqn:Hs; [| discriminate].
    pose proof (blob_after_step e w w1 Hs) as Hstep.
    destruct e as [o | | h | c files | c err | r result];
      try (rewrite Hb in Hstep; apply (IH w1 w' b Hstep Hrun)).
    destruct (IH w1 w' _ Hstep Hrun) as (b' & Hb' & _).
    exists b'. split; [exact Hb' | discriminate].
Qed.

Lemma blob_never_cleared_witness :
  exists b',
    recordingBlob (hook (stop (start None deliveredWorld))) = Some b' /\
    (existsb (fun e => match e with ReaderLoadEnd _ _ => true | _ => false end)
             [CallStart None; CallStop] = false ->
     b' = {| blobBytes := sampleBytes; blobType := "audio/wav" |}).
Proof.
  apply (blob_never_cleared [CallStart None; CallStop] deliveredWorld
           (stop (start None deliveredWorld))
           {| blobBytes := sampleBytes; blobType := "audio/wav" |}).
  - reflexivity.
  - reflexivity.
Defined.

(** ** How [start()] and [stop()] compose *)

(** X9: [stop()] is idempotent: a second [stop()] changes nothing. *)
Theorem stop_idempotent :
  forall w : World, stop (stop w) = stop w.
Proof.
  intros w. rewrite (stop_spec (stop w)). rewrite !stop_spec. reflexivity.
Qed.



(** ** After a failure *)

(** While the cell holds a handle and nothing empties it, the hook stays
    as it is: [start()] is ignored, so no capture begins and no interval is
    set or cleared. *)
Lemma recording_persists (trace : list Event) :
  forall (w w' : World) (h : Handle),
    timerInterval (hook w) = Some h ->
    run trace w = Some w' ->
    existsb empties_cell trace = false ->
    timerInterval (hook w') = Some h /\
    isRecording (hook w') = isRecording (hook w) /\
    nextCapture w' = nextCapture w /\
    intervals w' = intervals w.
Proof.
  induction trace as [| e trace IH]; simpl; intros w w' h Ht Hrun Hno.
  - injection Hrun as <-. auto.
  - apply orb_false_elim in Hno as [He Hno].
    destruct (step e w) as [w1 |] eqn:Hs; [| discriminate].
    assert (H1 : timerInterval (hook w1) = Some h /\
                 isRecording (hook w1) = isRecording (hook w) /\
                 nextCapture w1 = nextCapture w /\
                 intervals w1 = intervals w).
    { destruct e as [o | | h1 | c files | c err | r result]; simpl in Hs;
        try discriminate He.
      - injection Hs as <-. rewrite (start_with_timer o w h Ht). auto.
      - destruct (live h1 (intervals w)); [| discriminate].
        injection Hs as <-. simpl. auto.
      - destruct (assoc c (captures w)) as [r |]; [| discriminate].
        injection Hs as <-. destruct (r_onNotAllowedOrFound r); simpl; auto.
      - destruct (assoc r (readers w)); [| discriminate].
        injection Hs as <-. simpl. auto. }
    destruct H1 as (Ht1 & Hrec1 & Hnc1 & Hiv1).
    destruct (IH w1 w' h Ht1 Hrun Hno) as (Ht' & Hrec' & Hnc' & Hiv').
    repeat split; congruence.
Qed.

(** X11: a capture failure during a recording leaves the hook recording:
    [isRecording] stays true, the intervals keep running and the failed
    capture is over.  From then on, as long as neither [stop()] is called
    nor a success callback of another capture runs, [isRecording] stays
    true and [start()] is ignored: no capture begins and no interval is set
    or cleared. *)
Theorem failure_keeps_recording_and_blocks_restart :
  forall (trace after : list Event) (w w' w'' : World) (c : CaptureId)
         (r : Render) (err : CaptureError),
    run trace initialWorld = Some w ->
    isRecording (hook w) = true ->
    assoc c (captures w) = Some r ->
    step (CaptureFails c err) w = Some w' ->
    run after w' = Some w'' ->
    existsb empties_cell after = false ->
    isRecording (hook w') = true /\
    intervals w' = intervals w /\
    assoc c (captures w') = None /\
    isRecording (hook w'') = true /\
    timerInterval (hook w'') = timerInterval (hook w) /\
    nextCapture w'' = nextCapture w /\
    intervals w'' = intervals w.
Proof.
  intros trace after w w' w'' c r err Hrun Hrec Hc Hfail Hafter Hno.
  destruct (bookkeeping_run trace initialWorld w bookkeeping_initial Hrun)
    as (Hflag & _).
  rewrite Hrec in Hflag. unfold has_timer in Hflag.
  destruct (timerInterval (hook w)) as [h |] eqn:Ht; [| discriminate].
  simpl in Hfail. rewrite Hc in Hfail. injection Hfail as <-.
  assert (H1 : hook
                 (world_after
                    (onCaptureError (r_onNotAllowedOrFound r) err
                       (with_captures (unbind c (captures w)) (nextCapture w) w)))
               = hook w /\
               intervals
                 (world_after
                    (onCaptureError (r_onNotAllowedOrFound r) err
                       (with_captures (unbind c (captures w)) (nextCapture w) w)))
               = intervals w /\
               captures
                 (world_after
                    (onCaptureError (r_onNotAllowedOrFound r) err
                       (with_captures (unbind c (captures w)) (nextCapture w) w)))
               = unbind c (captures w) /\
               nextCapture
                 (world_after
                    (onCaptureError (r_onNotAllowedOrFound r) err
                       (with_captures (unbind c (captures w)) (nextCapture w) w)))
               = nextCapture w).
  { destruct (r_onNotAllowedOrFound r); simpl; auto. }
  destruct H1 as (Hh & Hiv & Hcs & Hnc).
  assert (Ht1 : timerInterval
                  (hook
                     (world_after
                        (onCaptureError (r_onNotAllowedOrFound r) err
                           (with_captures (unbind c (captures w))
                              (nextCapture w) w)))) = Some h)
    by (rewrite Hh; exact Ht).
  destruct (recording_persists after _ w'' h Ht1 Hafter Hno)
    as (Ht2 & Hrec2 & Hnc2 & Hiv2).
  rewrite Hh in Hrec2. rewrite Hh, Hcs.
  repeat split; try congruence. apply assoc_unbind.
Qed.

Lemma failure_keeps_recording_and_blocks_restart_witness :
  isRecording (hook failedWorld) = true /\
  intervals failedWorld = intervals recordingWorld /\
  assoc 0%nat (captures failedWorld) = None /\
  isRecording (hook (start None failedWorld)) = true /\
  timerInterval (hook (start None failedWorld)) =
    timerInterval (hook recordingWorld) /\
  nextCapture (start None failedWorld) = nextCapture recordingWorld /\
  intervals (start None failedWorld) = intervals recordingWorld.
Proof.
  apply (failure_keeps_recording_and_blocks_restart
           [CallStart (Some sampleHandler)] [CallStart None]
           recordingWorld failedWorld (start None failedWorld) 0%nat
           {| r_timerInterval := None;
              r_onNotAllowedOrFound := Some sampleHandler |}
           sampleError).
  - reflexivity.
  - reflexivity.
  - reflexivity.
  - reflexivity.
  - reflexivity.
  - reflexivity.
Defined.

(** X12: the failure callback calls the handler of the render that started
    the capture: when the hook is rendered with another handler afterwards
    (and [start()] is called again, which the guard ignores), a failure of
    the capture still reports to the first handler, or to none when the
    first render had none. *)
Theorem failure_reports_to_handler_of_starting_render :
  forall (w : World) (first later : option Handler) (err : CaptureError),
    timerInterval (hook w) = None ->
    exists w',
      run [CallStart first; CallStart later; CaptureFails (nextCapture w) err] w
        = Some w' /\
      handlerCalls w' =
        (handlerCalls w ++
         match first with
         | Some handler => [(handler, err)]
         | None => []
         end)%list /\
      console w' = (console w ++ [message err])%list.
Proof.
  intros w first later err Ht.
  cbn [run step].
  rewrite (start_twice first later w Ht).
  rewrite (start_without_timer first w Ht). simpl.
  rewrite Nat.eqb_refl. eexists. split; [reflexivity |].
  destruct first; simpl; [auto |]. now rewrite app_nil_r.
Qed.

Lemma failure_reports_to_handler_of_starting_render_witness :
  exists w',
    run [CallStart (Some sampleHandler); CallStart (Some 8%nat);
         CaptureFails (nextCapture initialWorld) sampleError] initialWorld
      = Some w' /\
    handlerCalls w' =
      (handlerCalls initialWorld ++ [(sampleHandler, sampleError)])%list /\
    console w' = (console initialWorld ++ [message sampleError])%list.
Proof.
  apply (failure_reports_to_handler_of_starting_render initialWorld
           (Some sampleHandler) (Some 8%nat) sampleError).
  reflexivity.
Defined.

(** ** Two calls from one render *)

(** X13: the guard of [startRecording] reads the [timerInterval] of its
    render, not the cell: two calls of the [startRecording] of one render
    with an empty [timerInterval] each begin a capture and set an interval;
    the cell keeps only the second handle, so a later [stop()] clears the
    second interval and leaves the first one live. *)
Theorem same_render_double_start_orphans_first_interval :
  forall (o : option Handler) (w : World),
    let w2 :=
      world_after (startRecording None o (world_after (startRecording None o w))) in
    intervals w2 = (intervals w ++ [nextHandle w; S (nextHandle w)])%list /\
    timerInterval (hook w2) = Some (S (nextHandle w)) /\
    List.length (captures w2) = S (S (List.length (captures w))) /\
    live (nextHandle w) (intervals (stop w2)) = true /\
    live (S (nextHandle w)) (intervals (stop w2)) = false.
Proof.
  intros o w w2.
  assert (Hiv : intervals w2 = (intervals w ++ [nextHandle w; S (nextHandle w)])%list).
  { subst w2. cbn. now rewrite <- app_assoc. }
  assert (Hcell : timerInterval (hook w2) = Some (S (nextHandle w)))
    by reflexivity.
  split; [exact Hiv |]. split; [exact Hcell |]. split; [reflexivity |].
  rewrite stop_spec. cbn [intervals]. rewrite Hcell, Hiv. split.
  - rewrite live_kept.
    + rewrite live_app. cbn. rewrite Nat.eqb_refl. apply orb_true_r.
    + apply Nat.eqb_neq. lia.
  - apply live_cleared.
Qed.

(** * Runs with other events in between *)

(** ** Captures and readers stay in flight until their own event *)










(** ** [stop()] and a capture still in flight *)



(** ** The blob is the last read *)

Lemma last_read_run (trace : list Event) :
  forall w w' : World,
    run trace w = Some w' ->
    recordingBlob (hook w') = last_read_from (recordingBlob (hook w)) trace.
Proof.
  induction trace as [| e trace IH]; simpl; intros w w' Hrun.
  - now injection Hrun as <-.
  - destruct (step e w) as [w1 |] eqn:Hs; [| discriminate].
    pose proof (blob_after_step e w w1 Hs) as Hb.
    rewrite (IH w1 w' Hrun).
    destruct e; now rewrite Hb.
Qed.

Lemma no_success_no_loadend (trace : list Event) :
  forall w w' : World,
    run trace w = Some w' ->
    readers w = [] -> recordingBlob (hook w) = None ->
    existsb is_success trace = false ->
    existsb is_loadend trace = false.
Proof.
  induction trace as [| e trace IH]; simpl; intros w w' Hrun Hrd Hb Hno.
  - reflexivity.
  - apply orb_false_elim in Hno as [He Hno].
    destruct (step e w) as [w1 |] eqn:Hs; [| discriminate].
    assert (H1 : run [e] w = Some w1) by (simpl; now rewrite Hs).
    assert (He1 : existsb is_success [e] = false) by (simpl; now rewrite He).
    destruct (no_success_no_blob [e] w w1 H1 He1 Hrd Hb) as (Hb1 & Hrd1).
    rewrite (IH w1 w' Hrun Hrd1 Hb1 Hno).
    destruct e; try reflexivity.
    simpl in Hs. rewrite Hrd in Hs. discriminate Hs.
Qed.

Lemma last_read_none (trace : list Event) (b : option Blob) :
  existsb is_loadend trace = false -> last_read_from b trace = b.
Proof.
  induction trace as [| e trace IH]; simpl; [reflexivity |].
  intros Hno. apply orb_false_elim in Hno as [He Hno].
  destruct e; try discriminate He; now apply IH.
Qed.

(** C6, amended: in every reachable world [recordingBlob] is undefined as
    long as no file read has ended, and from then on it is the audio/wav
    blob of the last read that ended, in the recording state as in any
    other: no operation clears it.  A read ends only in a run in which a
    success callback of the provider has run. *)
Theorem blob_is_last_read_result :
  forall (trace : list Event) (w : World),
    run trace initialWorld = Some w ->
    recordingBlob (hook w) = last_read_from None trace /\
    (if existsb is_loadend trace then True else recordingBlob (hook w) = None) /\
    implb (existsb is_loadend trace) (existsb is_success trace) = true.
Proof.
  intros trace w Hrun.
  pose proof (last_read_run trace initialWorld w Hrun) as Hlast.
  simpl in Hlast. split; [exact Hlast |]. split.
  - destruct (existsb is_loadend trace) eqn:E; [exact I |].
    rewrite Hlast. now apply last_read_none.
  - destruct (existsb is_success trace) eqn:E.
    + now destruct (existsb is_loadend trace).
    + now rewrite (no_success_no_loadend trace initialWorld w Hrun
                     eq_refl eq_refl E).
Qed.

Lemma blob_is_last_read_result_witness :
  recordingBlob (hook secondTakeWorld) = last_read_from None secondTakeTrace /\
  (if existsb is_loadend secondTakeTrace then True
   else recordingBlob (hook secondTakeWorld) = None) /\
  implb (existsb is_loadend secondTakeTrace)
        (existsb is_success secondTakeTrace) = true.
Proof.
  apply (blob_is_last_read_result secondTakeTrace secondTakeWorld).
  reflexivity.
Defined.

(** ** The timer that [stop()] does not reach *)

(** C4, on the failing run: after a recording that the provider completed
    and a second [start()], two intervals are live; [stop()] resets the
    cells and clears the interval of the second recording, and the interval
    of the first keeps firing: one second later the idle hook shows
    [recordingTime] 1, and another [stop()] does not clear it either. *)
Theorem stop_leaves_orphaned_timer_running :
  exists w w1 w2 : World,
    run restartTrace initialWorld = Some w /\
    isRecording (hook w) = true /\
    intervals w = [0%nat; 1%nat] /\
    w1 = stop w /\
    isRecording (hook w1) = false /\
    recordingTime (hook w1) = 0 /\
    timerInterval (hook w1) = None /\
    intervals w1 = [0%nat] /\
    second_passes w1 = Some w2 /\
    recordingTime (hook w2) = 1 /\
    isRecording (hook w2) = false /\
    intervals (stop w2) = [0%nat].
Proof.
  exists restartWorld.
  let r := eval vm_compute in (stop restartWorld) in exists r.
  let r := eval vm_compute in (second_passes (stop restartWorld)) in
  match r with Some ?w => exists w end.
  repeat split.
Qed.

(** C5, on the failing runs: with the interval of a completed recording
    still live beside the interval of the current one, one second of
    recording adds 2 to [recordingTime]; and after a recording that the
    provider completed, [recordingTime] goes on growing while the hook is
    idle. *)
Theorem two_timers_count_twice_per_second :
  exists w w' idle idle' : World,
    run restartTrace initialWorld = Some w /\
    isRecording (hook w) = true /\
    second_passes w = Some w' /\
    isRecording (hook w') = true /\
    recordingTime (hook w') = recordingTime (hook w) + 2 /\
    run orphanTrace initialWorld = Some idle /\
    isRecording (hook idle) = false /\
    recordingTime (hook idle) = 0 /\
    second_passes idle = Some idle' /\
    isRecording (hook idle') = false /\
    recordingTime (hook idle') = 1.
Proof.
  exists restartWorld.
  let r := eval vm_compute in (second_passes restartWorld) in
  match r with Some ?w => exists w end.
  exists orphanWorld.
  let r := eval vm_compute in (second_passes orphanWorld) in
  match r with Some ?w => exists w end.
  repeat split.
Qed.
